(** * final_project.py: intrinsic share price by discounted cash flow

    A shallow embedding of the valuation function [calculate_intrinsic_price],
    of the module constants it reads and of the sensitivity sweep
    [wacc_values] / [share_prices] of [final_project.py].

    Python's [float] and NumPy's [float64] are IEEE 754 binary64 numbers;
    they are modelled by Rocq's primitive [float], whose operations are the
    binary64 operations rounded to nearest, ties to even.  The Streamlit and
    Plotly calls only display values and are left out. *)

From Stdlib Require Import ZArith List Bool Lia QArith Qabs Floats.
Import ListNotations.

Set Warnings "-inexact-float".

(** ** Exceptions *)

Inductive exn : Set :=
| ZeroDivisionError
| OverflowError
| ValueError.

Inductive result (A : Type) : Type :=
| Ok (a : A)
| Raise (e : exn).

Arguments Ok {A} a.
Arguments Raise {A} e.

Definition bind {A B : Type} (r : result A) (k : A -> result B) : result B :=
  match r with
  | Ok a => k a
  | Raise e => Raise e
  end.

Notation "x <- c ;; k" := (bind c (fun x => k))
  (at level 61, c at next level, right associativity).

(** ** Binary64 helpers shared by the Python and the NumPy model *)

Module B64.

Open Scope Z_scope.

(** The integer nearest to [a / b] for [0 < b], ties to the even one. *)
Definition round_half_even (a b : Z) : Z :=
  let q := a / b in
  match 2 * (a mod b) ?= b with
  | Lt => q
  | Gt => q + 1
  | Eq => if Z.even q then q else q + 1
  end.

(** The binary64 number nearest to the integer [z] (ties to even);
    an infinity when [z] is out of range. *)
Definition of_Z (z : Z) : float :=
  SF2Prim (binary_normalize prec emax z 0 false).

(** The binary64 number nearest to [(-1)^s * n / d], for positive [n], [d]
    of any size: the division of [SpecFloat] rounds the exact quotient
    of the two integers once. *)
Definition of_ratio (s : bool) (n d : positive) : float :=
  SF2Prim (SFdiv prec emax (S754_finite s n 0) (S754_finite false d 0)).

(** The exact value of a finite binary64 number, as a rational. *)
Definition to_Q (x : float) : option Q :=
  match Prim2SF x with
  | S754_zero _ => Some 0%Q
  | S754_finite s m e =>
      let a := if s then Z.neg m else Z.pos m in
      Some (match e with
            | Z0 => inject_Z a
            | Z.pos k => inject_Z (a * 2 ^ Z.pos k)
            | Z.neg k => Qmake a (2 ^ k)%positive
            end)
  | _ => None
  end.

End B64.

(** ** Python's float operations (CPython, [floatobject.c]) *)

Module Py.

Open Scope float_scope.

(** [float(z)] and the coercion of an [int] operand in mixed arithmetic:
    correctly rounded, [OverflowError] when the integer is too large. *)
Definition float_of_int (z : Z) : result float :=
  let x := B64.of_Z z in
  if is_infinity x then Raise OverflowError else Ok x.

(** [x / y] on floats: [ZeroDivisionError] when the divisor compares
    equal to zero. *)
Definition truediv (x y : float) : result float :=
  if y =? 0 then Raise ZeroDivisionError else Ok (x / y).

(** [round(x, 2)] on a float: the decimal with two fractional digits that is
    nearest to the exact value of [x] (ties to the even last digit), read
    back as the nearest float; zeros keep their sign, infinities and NaN
    are returned as they are. *)
Definition round2 (x : float) : float :=
  match Prim2SF x with
  | S754_finite s m e =>
      let n := match e with
               | Z.neg k => B64.round_half_even (Z.pos m * 100) (2 ^ Z.pos k)
               | _ => (Z.pos m * 2 ^ e * 100)%Z
               end in
      match n with
      | Z.pos p => B64.of_ratio s p 100
      | _ => if s then neg_zero else zero
      end
  | _ => x
  end.

(** [sum(xs)] over floats, from the integer start value 0. *)
Definition sum (xs : list float) : float := fold_left add xs 0.

End Py.

(** ** NumPy's float64 operations *)

Module Np.

Open Scope float_scope.

(** [np.rint]: the nearest integer, ties to even. *)
Definition rint (x : float) : float :=
  match Prim2SF x with
  | S754_finite s m (Z.neg k) =>
      let r := B64.of_Z (B64.round_half_even (Z.pos m) (2 ^ Z.pos k)) in
      if s then - r else r
  | _ => x
  end.

(** [round(x, 2)] on a [float64] scalar ([ndarray.round]): scale by 100,
    [rint], scale back; each step rounds. *)
Definition round2 (x : float) : float := rint (x * 100) / 100.

(** [np.arange(0, n)] as float64. *)
Definition arange (n : nat) : list float :=
  map (fun i => B64.of_Z (Z.of_nat i)) (seq 0 n).

(** [y[-1] = v] on a non-empty array. *)
Definition set_last (y : list float) (v : float) : list float :=
  match y with
  | [] => []
  | _ => removelast y ++ [v]
  end.

(** [np.linspace(start, stop, num)] with the default [endpoint=True]. *)
Definition linspace (start stop : float) (num : Z) : result (list float) :=
  if (num <? 0)%Z then Raise ValueError else
  let div := (num - 1)%Z in
  let delta := stop - start in
  let y := arange (Z.to_nat num) in
  let y :=
    if (0 <? div)%Z then
      let step := delta / B64.of_Z div in
      if step =? 0
      then map (fun v => v / B64.of_Z div * delta) y
      else map (fun v => v * step) y
    else map (fun v => v * delta) y in
  let y := map (fun v => v + start) y in
  Ok (if (1 <? num)%Z then set_last y stop else y).

End Np.

(** ** Numbers the valuation function is called with

    The slider passes a Python [float]; iterating over [wacc_values] passes
    NumPy [float64] scalars.  Both carry a binary64 value; they differ in
    what division by zero and [round] do. *)

Inductive number : Set :=
| PyFloat (x : float)
| NpFloat64 (x : float).

Definition payload (v : number) : float :=
  match v with
  | PyFloat x => x
  | NpFloat64 x => x
  end.

(** An arithmetic operator on two numbers: the result is a [float64] as soon
    as one operand is. *)
Definition binop (op : float -> float -> float) (a b : number) : number :=
  match a, b with
  | PyFloat x, PyFloat y => PyFloat (op x y)
  | _, _ => NpFloat64 (op (payload a) (payload b))
  end.

Definition py_add : number -> number -> number := binop PrimFloat.add.
Definition py_sub : number -> number -> number := binop PrimFloat.sub.
Definition py_mul : number -> number -> number := binop PrimFloat.mul.

(** [a / b]: Python floats raise on a zero divisor, NumPy scalars follow
    IEEE 754 (infinity or NaN, with a warning). *)
Definition py_truediv (a b : number) : result number :=
  match a, b with
  | PyFloat x, PyFloat y => x' <- Py.truediv x y ;; Ok (PyFloat x')
  | _, _ => Ok (NpFloat64 (payload a / payload b))
  end.

(** [a <= b], as a truth value. *)
Definition py_le (a b : number) : bool := (payload a <=? payload b)%float.

(** An [int] operand of mixed arithmetic. *)
Definition py_int (z : Z) : result number :=
  x <- Py.float_of_int z ;; Ok (PyFloat x).

(** [round(v, 2)], dispatched on the type of [v]. *)
Definition py_round2 (v : number) : number :=
  match v with
  | PyFloat x => PyFloat (Py.round2 x)
  | NpFloat64 x => NpFloat64 (Np.round2 x)
  end.

(** ** Hardcoded financial data (lines 8-20) *)

Record Globals : Set := {
  market_cap : Z;
  total_debt : Z;
  cash_investments : Z;
  outstanding_shares : Z;
  interest_expense : Z;
  net_debt : Z;
  fcf_sum : float;
  final_year_fcf : float;
  terminal_growth : float
}.

(** The module's top-level assignments, in order; [net_debt] and [fcf_sum]
    are computed once from the values assigned before them. *)
Definition module_globals : Globals :=
  let market_cap := 115830000000%Z in
  let total_debt := 70760000000%Z in
  let cash_investments := 9410000000%Z in
  let outstanding_shares := 1800000000%Z in
  let interest_expense := 4400000000%Z in
  let net_debt := (total_debt - cash_investments)%Z in
  let fcf_sum := Py.sum [7.81e9; 7.64e9; 6.52e9; 5.95e9; 5.44e9]%float in
  let final_year_fcf := 5378414444.78%float in
  let terminal_growth := 0.03%float in
  {| market_cap := market_cap;
     total_debt := total_debt;
     cash_investments := cash_investments;
     outstanding_shares := outstanding_shares;
     interest_expense := interest_expense;
     net_debt := net_debt;
     fcf_sum := fcf_sum;
     final_year_fcf := final_year_fcf;
     terminal_growth := terminal_growth |}.

(** The same module with another value assigned to [market_cap]. *)
Definition with_market_cap (mc : Z) (G : Globals) : Globals :=
  {| market_cap := mc;
     total_debt := total_debt G;
     cash_investments := cash_investments G;
     outstanding_shares := outstanding_shares G;
     interest_expense := interest_expense G;
     net_debt := net_debt G;
     fcf_sum := fcf_sum G;
     final_year_fcf := final_year_fcf G;
     terminal_growth := terminal_growth G |}.

(** ** calculate_intrinsic_price (lines 25-40)

    [Ok None] is Python's [None]; [Ok (Some p)] a returned price. *)

Definition calculate_intrinsic_price (G : Globals) (wacc : number)
  : result (option number) :=
  if py_le wacc (PyFloat (terminal_growth G)) then Ok None else
  one <- py_int 1 ;;
  let growth := py_add one (PyFloat (terminal_growth G)) in
  let numerator := py_mul (PyFloat (final_year_fcf G)) growth in
  let denominator := py_sub wacc (PyFloat (terminal_growth G)) in
  terminal_value <- py_truediv numerator denominator ;;
  let enterprise_value := py_add (PyFloat (fcf_sum G)) terminal_value in
  debt <- py_int (net_debt G) ;;
  let equity_value := py_sub enterprise_value debt in
  shares <- py_int (outstanding_shares G) ;;
  intrinsic_share_price <- py_truediv equity_value shares ;;
  Ok (Some (py_round2 intrinsic_share_price)).

(** ** The sensitivity sweep (lines 87-88) *)

(** [arr / 100] on a float64 array. *)
Definition array_div (y : list float) (d : float) : list float :=
  map (fun v => (v / d)%float) y.

(** [np.linspace(start, stop, num) / 100]: the swept rates, as float64. *)
Definition rate_samples (start stop : float) (num : Z) : result (list float) :=
  y <- Np.linspace start stop num ;; Ok (array_div y 100).

(** A list comprehension [[f(w) for w in ws]] whose body may raise: the
    elements are visited in order, [f] is called on each, and the first
    exception ends the loop.  [calls] records the arguments [f] has been
    called with so far. *)
Fixpoint comprehension {A B : Type} (f : A -> result B) (ws : list A)
    (calls : list A) : result (list B) * list A :=
  match ws with
  | [] => (Ok [], calls)
  | w :: ws' =>
      match f w with
      | Raise e => (Raise e, calls ++ [w])
      | Ok p =>
          let '(r, calls') := comprehension f ws' (calls ++ [w]) in
          (ps <- r ;; Ok (p :: ps), calls')
      end
  end.

(** [[calculate_intrinsic_price(w) for w in ws]] over a float64 array. *)
Definition sweep (G : Globals) (ws : list float)
  : result (list (option number)) * list float :=
  comprehension (fun w => calculate_intrinsic_price G (NpFloat64 w)) ws [].

(** The curve for a range and a sample count: the rates and one result per
    rate.  Lines 87-88 are the instance [generate_curve G 3.5 12 100]. *)
Definition generate_curve (G : Globals) (start stop : float) (num : Z)
  : result (list float * list (option number)) :=
  ws <- rate_samples start stop num ;;
  ps <- fst (sweep G ws) ;;
  Ok (ws, ps).

Definition wacc_values : result (list float) := rate_samples 3.5 12 100.

Definition share_prices : result (list (option number)) :=
  ws <- wacc_values ;; fst (sweep module_globals ws).

(** ** The valuation as the specification words it (section 4.1)

    Terminal value by the Gordon-growth formula, enterprise value as forecast
    sum plus terminal value, equity value as enterprise value minus net
    debt, price as equity value per share; every step a binary64 operation.
    Rounding to two decimals is applied to the result by the caller. *)
Definition gordon_growth_price (G : Globals) (discountRate : float) : float :=
  let finalYearCashFlow := final_year_fcf G in
  let terminalGrowthRate := terminal_growth G in
  let cumulativeForecastValue := fcf_sum G in
  let netDebt := B64.of_Z (total_debt G - cash_investments G) in
  let outstandingShares := B64.of_Z (outstanding_shares G) in
  let terminalValue :=
    (finalYearCashFlow * (1 + terminalGrowthRate)
       / (discountRate - terminalGrowthRate))%float in
  let enterpriseValue := (cumulativeForecastValue + terminalValue)%float in
  let equityValue := (enterpriseValue - netDebt)%float in
  (equityValue / outstandingShares)%float.


(** What a call on a float64 rate returns. *)
Definition float64_result (G : Globals) (w : float) : option number :=
  if (w <=? terminal_growth G)%float then None
  else Some (NpFloat64 (Np.round2 (gordon_growth_price G w))).

(** ** Predicates used to state properties of the curve *)

(** [R] holds between every element and the next one. *)
Fixpoint adjacent {A : Type} (R : A -> A -> bool) (l : list A) : bool :=
  match l with
  | a :: (b :: _) as tl => R a b && adjacent R tl
  | _ => true
  end.

(** Every rate is strictly above the one before it. *)
Definition strictly_ascending (ws : list float) : bool :=
  adjacent PrimFloat.ltb ws.

(** Rate [b] is above rate [a] and its price is defined and strictly below
    the price at [a]. *)
Definition price_falls (G : Globals) (a b : float) : bool :=
  (a <? b)%float &&
  match float64_result G a, float64_result G b with
  | Some p, Some q => (payload q <? payload p)%float
  | _, _ => false
  end.

(** Sample [i] of [n] evenly spaced points of the closed interval
    [[first, last]], in exact rational arithmetic. *)
Definition linear_rule (first last : Q) (n : Z) (i : nat) : Q :=
  first + inject_Z (Z.of_nat i) * ((last - first) / inject_Z (n - 1)).

(** [x] is finite and its exact value is within [tol] of [q]. *)
Definition within (tol : Q) (x : float) (q : Q) : bool :=
  match B64.to_Q x with
  | Some v => Qle_bool (Qabs (v - q)) tol
  | None => false
  end.

(** The tolerance used for rates: 2^-52, the spacing of binary64 numbers
    at 1 (the machine epsilon). *)
Definition rate_tolerance : Q := 1 # (2 ^ 52).

(** All samples of [ws] follow the linear rule up to [rate_tolerance]. *)
Definition follows_linear_rule (first last : Q) (ws : list float) : bool :=
  forallb
    (fun i => within rate_tolerance (nth i ws nan)
                (linear_rule first last (Z.of_nat (length ws)) i))
    (seq 0 (length ws)).

(** [x] does not compare equal to zero: the test Python's float division
    makes on its divisor, on the bit-level specification of binary64. *)
Definition nonzero (x : spec_float) : Prop :=
  SFeqb x (S754_zero false) = false.

(** * Properties *)

(** ** Binary64 facts: a difference of two distinct numbers is not zero

    [SpecFloat] gives the bit-level meaning of the primitive operations;
    the lemmas below follow a right shift of a mantissa through rounding. *)

Section Rounding.

Open Scope Z_scope.

Lemma digits2_pos_size (m : positive) : digits2_pos m = Pos.size m.
Proof. induction m; simpl; congruence. Qed.

Lemma digits2_pos_bounds (m : positive) :
  2 ^ (Z.pos (digits2_pos m) - 1) <= Z.pos m < 2 ^ Z.pos (digits2_pos m).
Proof.
  rewrite digits2_pos_size. split.
  - pose proof (Pos.size_le m) as H.
    apply Pos2Z.pos_le_pos in H. rewrite Pos2Z.inj_pow in H.
    replace (Z.pos (Pos.size m)) with (Z.succ (Z.pos (Pos.size m) - 1)) in H by lia.
    rewrite Z.pow_succ_r in H by lia.
    change (Z.pos m~0) with (2 * Z.pos m) in H. lia.
  - pose proof (Pos.size_gt m) as H.
    apply Pos2Z.pos_lt_pos in H. now rewrite Pos2Z.inj_pow in H.
Qed.

Lemma shr_1_m (r : shr_record) :
  0 <= shr_m r -> shr_m (shr_1 r) = shr_m r / 2.
Proof.
  destruct r as [m b s]; simpl; intros Hm.
  destruct m as [|p|p]; [reflexivity| |lia].
  destruct p as [p|p|]; simpl.
  - rewrite Pos2Z.inj_xI. apply Z.div_unique with 1; lia.
  - rewrite Pos2Z.inj_xO. apply Z.div_unique with 0; lia.
  - reflexivity.
Qed.

Lemma iter_pos_shr_m (p : positive) : forall r : shr_record,
  0 <= shr_m r -> shr_m (iter_pos shr_1 p r) = shr_m r / 2 ^ Z.pos p.
Proof.
  induction p as [p IH|p IH|]; intros r Hr; simpl iter_pos.
  - assert (H1 : 0 <= shr_m (shr_1 r)).
    { rewrite shr_1_m by assumption. apply Z.div_pos; lia. }
    assert (H2 : 0 <= shr_m (iter_pos shr_1 p (shr_1 r))).
    { rewrite IH by assumption. apply Z.div_pos; lia. }
    rewrite IH, IH, shr_1_m by assumption.
    rewrite !Z.div_div by lia.
    f_equal. rewrite Pos2Z.inj_xI.
    replace (2 * Z.pos p + 1) with (1 + Z.pos p + Z.pos p) by lia.
    rewrite !Z.pow_add_r, Z.pow_1_r by lia. ring.
  - assert (H2 : 0 <= shr_m (iter_pos shr_1 p r)).
    { rewrite IH by assumption. apply Z.div_pos; lia. }
    rewrite IH, IH by assumption.
    rewrite Z.div_div by lia.
    f_equal. replace (Z.pos p~0) with (Z.pos p + Z.pos p) by lia.
    rewrite Z.pow_add_r by lia. reflexivity.
  - now rewrite shr_1_m, Z.pow_1_r.
Qed.

Lemma shr_record_of_loc_m (m : Z) (l : location) :
  shr_m (shr_record_of_loc m l) = m.
Proof. destruct l as [|[ | | ]]; reflexivity. Qed.

Lemma shr_fexp_pos (m e : Z) (l : location) :
  0 < m -> emin <= e ->
  0 < shr_m (fst (shr_fexp prec emax m e l)) /\
  emin <= snd (shr_fexp prec emax m e l).
Proof.
  intros Hm He. unfold shr_fexp, shr.
  destruct m as [|p|p]; try lia. simpl Zdigits2.
  pose proof (digits2_pos_bounds p) as [Hlo Hhi].
  set (d := Z.pos (digits2_pos p)) in *.
  unfold fexp. fold emin.
  destruct (Z.max (d + e - prec) emin - e) as [|n|n] eqn:Hn; simpl fst; simpl snd;
    rewrite ?shr_record_of_loc_m; try (split; lia).
  assert (Hd : Z.pos n = d - prec) by lia.
  split; [|lia].
  rewrite iter_pos_shr_m by (rewrite shr_record_of_loc_m; lia).
  rewrite shr_record_of_loc_m, Hd.
  apply Z.div_str_pos. split; [apply Z.pow_pos_nonneg; lia|].
  apply Z.le_trans with (2 ^ (d - 1)); [|assumption].
  apply Z.pow_le_mono_r; unfold prec; lia.
Qed.

Lemma round_nearest_even_ge (m : Z) (l : location) :
  m <= round_nearest_even m l.
Proof.
  destruct l as [|[ | | ]]; simpl; try lia.
  destruct (Z.even m); lia.
Qed.

Lemma binary_round_aux_nonzero (s : bool) (m e : Z) (l : location) :
  0 < m -> emin <= e -> nonzero (binary_round_aux prec emax s m e l).
Proof.
  intros Hm He. unfold binary_round_aux.
  destruct (shr_fexp_pos m e l Hm He) as [H1 H2].
  destruct (shr_fexp prec emax m e l) as [mrs' e']. simpl in H1, H2.
  pose proof (round_nearest_even_ge (shr_m mrs') (loc_of_shr_record mrs')) as Hr.
  set (m1 := round_nearest_even (shr_m mrs') (loc_of_shr_record mrs')) in *.
  assert (Hm1 : 0 < m1) by lia.
  destruct (shr_fexp_pos m1 e' loc_Exact Hm1 H2) as [H3 _].
  destruct (shr_fexp prec emax m1 e' loc_Exact) as [mrs'' e'']. simpl in H3.
  destruct (shr_m mrs'') as [|q|q]; try lia.
  destruct (e'' <=? emax - prec); destruct s; reflexivity.
Qed.

Lemma iter_xO_pow (d : positive) : forall m : positive,
  Z.pos (Pos.iter xO m d) = Z.pos m * 2 ^ Z.pos d.
Proof.
  induction d as [|d IH] using Pos.peano_ind; intros m.
  - simpl. lia.
  - rewrite Pos.iter_succ, Pos2Z.inj_xO, IH, Pos2Z.inj_succ, Z.pow_succ_r by lia. lia.
Qed.

Lemma binary_round_nonzero (s : bool) (m : positive) (e : Z) :
  emin <= e -> nonzero (binary_round prec emax s m e).
Proof.
  intros He. unfold binary_round, shl_align.
  set (f := fexp prec emax (Z.pos (digits2_pos m) + e)).
  assert (Hf : emin <= f) by (unfold f, fexp; fold emin; lia).
  destruct (f - e); apply binary_round_aux_nonzero; lia.
Qed.

(** A valid number with an exponent above the least one is normal. *)
Lemma valid_normal (s : bool) (m : positive) (e : Z) :
  valid_binary (S754_finite s m e) = true -> emin < e ->
  2 ^ (prec - 1) <= Z.pos m.
Proof.
  simpl. unfold bounded, canonical_mantissa, fexp. fold emin.
  intros H He. apply andb_prop in H as [H _]. apply Z.eqb_eq in H.
  pose proof (digits2_pos_bounds m) as [Hlo _].
  replace (Z.pos (digits2_pos m)) with prec in Hlo by lia. exact Hlo.
Qed.

Lemma SFsub_above_nonzero (mx mg : positive) (ex eg : Z) :
  valid_binary (S754_finite false mx ex) = true ->
  Z.pos mg < 2 ^ prec -> emin <= eg ->
  SFltb (S754_finite false mg eg) (S754_finite false mx ex) = true ->
  nonzero (SF64sub (S754_finite false mx ex) (S754_finite false mg eg)).
Proof.
  intros Hv Hmg Heg Hlt.
  unfold SFltb, SFcompare in Hlt.
  assert (Hord : eg < ex \/ (eg = ex /\ (mg < mx)%positive)).
  { destruct (Z.compare_spec eg ex) as [Heq|Hl|Hgt]; try discriminate.
    - right. split; [assumption|].
      destruct (Pos.compare_cont Eq mg mx) eqn:Hc; try discriminate.
      now apply Pos.compare_lt_iff.
    - now left. }
  unfold SF64sub, SFsub, cond_Zopp.
  assert (Hmin : Z.min ex eg = eg) by lia. rewrite Hmin.
  assert (Hg : fst (shl_align mg eg eg) = mg).
  { unfold shl_align. now rewrite Z.sub_diag. }
  rewrite Hg.
  assert (Hx : Z.pos mg < Z.pos (fst (shl_align mx ex eg))).
  { unfold shl_align. destruct Hord as [Hl|[-> Hl]].
    - destruct (eg - ex) as [|d|d] eqn:Hd; try lia. simpl fst.
      rewrite iter_xO_pow.
      pose proof (valid_normal false mx ex Hv ltac:(lia)) as Hn.
      assert (2 <= 2 ^ Z.pos d).
      { change 2 with (2 ^ 1) at 1. apply Z.pow_le_mono_r; lia. }
      change (2 ^ prec) with (2 * 2 ^ (prec - 1)) in Hmg. nia.
    - rewrite Z.sub_diag. simpl. lia. }
  destruct (Z.pos (fst (shl_align mx ex eg)) - Z.pos mg) as [|p|p] eqn:Hp; try lia.
  unfold binary_normalize. now apply binary_round_nonzero.
Qed.

End Rounding.

(** ** Comparisons and the guard *)

Section Comparison.

Open Scope Z_scope.

Lemma SFcompare_swap (x y : spec_float) :
  SFcompare y x = option_map CompOpp (SFcompare x y).
Proof.
  destruct x as [sx|sx| |sx mx ex], y as [sy|sy| |sy my ey]; simpl;
    try reflexivity;
    try (destruct sx; reflexivity);
    try (destruct sy; reflexivity);
    try (destruct sx, sy; reflexivity).
  f_equal.
  destruct sx, sy; try reflexivity;
    rewrite (Z.compare_antisym ey ex); destruct (ey ?= ex); simpl;
    try reflexivity;
    change (Pos.compare_cont Eq my mx) with (Pos.compare my mx);
    change (Pos.compare_cont Eq mx my) with (Pos.compare mx my);
    rewrite (Pos.compare_antisym my mx); try reflexivity.
  all: now rewrite CompOpp_involutive.
Qed.


(** Above the growth rate of the module the denominator of the terminal
    value is not zero. *)
Lemma sub_growth_nonzero (x : float) :
  (terminal_growth module_globals <? x)%float = true ->
  (x - terminal_growth module_globals =? 0%float)%float = false.
Proof.
  change (terminal_growth module_globals) with 0.03%float.
  rewrite ltb_spec, eqb_spec, sub_spec.
  pose proof (Prim2SF_valid x) as Hv.
  change (Prim2SF 0%float) with (S754_zero false).
  change (Prim2SF 0.03%float) with (S754_finite false 8646911284551352 (-58)).
  destruct (Prim2SF x) as [s|s| |s m e]; try discriminate.
  - destruct s; [discriminate|reflexivity].
  - destruct s; [discriminate|].
    intros H.
    apply SFsub_above_nonzero; try assumption; [reflexivity|discriminate].
Qed.

End Comparison.

(** ** What a call returns, by type of the rate *)

Section Valuation.

Open Scope float_scope.

(** On a float64 rate no step can raise. *)
Lemma calculate_float64 (w : float) :
  calculate_intrinsic_price module_globals (NpFloat64 w)
  = Ok (float64_result module_globals w).
Proof.
  unfold calculate_intrinsic_price, float64_result, py_le, payload.
  destruct (w <=? terminal_growth module_globals); reflexivity.
Qed.

(** On a Python float the only step that can raise is the division by
    [wacc - terminal_growth]. *)
Lemma calculate_float (x : float) :
  (x <=? terminal_growth module_globals) = false ->
  (x - terminal_growth module_globals =? 0) = false ->
  calculate_intrinsic_price module_globals (PyFloat x)
  = Ok (Some (PyFloat (Py.round2 (gordon_growth_price module_globals x)))).
Proof.
  intros Hle Hnz.
  unfold calculate_intrinsic_price, py_le, payload at 1 2. rewrite Hle.
  change (py_int 1) with (Ok (PyFloat 1)).
  unfold bind at 1.
  unfold py_truediv at 1, py_mul, py_add, py_sub, binop at 1 2 3.
  unfold Py.truediv at 1. rewrite Hnz.
  reflexivity.
Qed.

(** A rate that is not at or below the growth rate is above it or NaN;
    in both cases the denominator does not compare equal to zero. *)
Lemma guard_passed_nonzero (x : float) :
  (x <=? terminal_growth module_globals) = false ->
  (x - terminal_growth module_globals =? 0) = false.
Proof.
  intros Hle.
  destruct (terminal_growth module_globals <? x) eqn:Hlt;
    [now apply sub_growth_nonzero|].
  assert (Hnan : Prim2SF x = S754_nan).
  { revert Hle Hlt.
    change (terminal_growth module_globals) with 0.03.
    rewrite leb_spec, ltb_spec. unfold SFleb, SFltb.
    rewrite (SFcompare_swap (Prim2SF x) (Prim2SF 0.03)).
    change (Prim2SF 0.03) with (S754_finite false 8646911284551352 (-58)).
    destruct (Prim2SF x) as [s|s| |s m e]; try reflexivity;
      unfold SFcompare; cbv beta iota.
    - discriminate.
    - destruct s; discriminate.
    - destruct s; [discriminate|].
      destruct (e ?= -58)%Z; try discriminate.
      destruct (Pos.compare_cont Eq m 8646911284551352); discriminate. }
  rewrite eqb_spec, sub_spec, Hnan. reflexivity.
Qed.

(** No call on a Python float raises, whatever the float. *)
Lemma calculate_float_total (x : float) :
  calculate_intrinsic_price module_globals (PyFloat x)
  = Ok (if x <=? terminal_growth module_globals then None
        else Some (PyFloat (Py.round2 (gordon_growth_price module_globals x)))).
Proof.
  destruct (x <=? terminal_growth module_globals) eqn:Hle.
  - unfold calculate_intrinsic_price, py_le, payload at 1 2. now rewrite Hle.
  - apply calculate_float; [assumption|]. now apply guard_passed_nonzero.
Qed.

(** A comprehension over a function that never raises calls it on every
    element, in order, and returns every result. *)
Lemma comprehension_total {A B : Type} (f : A -> result B) (g : A -> B) :
  (forall w, f w = Ok (g w)) ->
  forall ws calls,
    comprehension f ws calls = (Ok (map g ws), calls ++ ws).
Proof.
  intros Hf ws. induction ws as [|w ws IH]; intros calls; simpl.
  - now rewrite app_nil_r.
  - rewrite Hf, IH, <- app_assoc. reflexivity.
Qed.

Lemma sweep_total (ws : list float) :
  sweep module_globals ws = (Ok (map (float64_result module_globals) ws), ws).
Proof.
  unfold sweep.
  now rewrite (comprehension_total _ _ calculate_float64).
Qed.

End Valuation.

(** ** Lists: adjacent elements, lengths of the sampled arrays *)

Section Lists.

Lemma adjacent_nth {A : Type} (R : A -> A -> bool) (l : list A) :
  adjacent R l = true ->
  forall i, (S i < length l)%nat ->
    exists a b,
      nth_error l i = Some a /\ nth_error l (S i) = Some b /\ R a b = true.
Proof.
  induction l as [|a l IH]; intros H i Hi; [simpl in Hi; lia|].
  destruct l as [|b l]; [simpl in Hi; lia|].
  change (R a b && adjacent R (b :: l) = true) in H.
  apply andb_prop in H as [Hab Hrest].
  destruct i as [|i].
  - exists a, b. now repeat split.
  - apply (IH Hrest i). simpl in Hi |- *. lia.
Qed.

Lemma set_last_length (y : list float) (v : float) :
  length (Np.set_last y v) = length y.
Proof.
  destruct y as [|a y]; [reflexivity|].
  unfold Np.set_last.
  rewrite length_app, removelast_firstn_len, length_firstn. simpl. lia.
Qed.

Lemma arange_length (n : nat) : length (Np.arange n) = n.
Proof. unfold Np.arange. now rewrite length_map, length_seq. Qed.

Lemma linspace_length (start stop : float) (num : Z) :
  (0 <= num)%Z ->
  exists y, Np.linspace start stop num = Ok y /\ length y = Z.to_nat num.
Proof.
  intros Hnum. unfold Np.linspace.
  destruct (Z.ltb_spec num 0) as [Hneg|_]; [lia|].
  eexists. split; [reflexivity|].
  destruct (1 <? num)%Z; rewrite ?set_last_length, length_map;
    destruct (0 <? num - 1)%Z;
    try destruct (_ =? _)%float;
    now rewrite length_map, arange_length.
Qed.

Lemma rate_samples_length (start stop : float) (num : Z) :
  (0 <= num)%Z ->
  exists ws, rate_samples start stop num = Ok ws /\ length ws = Z.to_nat num.
Proof.
  intros Hnum. unfold rate_samples.
  destruct (linspace_length start stop num Hnum) as (y & -> & Hy).
  exists (array_div y 100). split; [reflexivity|].
  unfold array_div. now rewrite length_map.
Qed.

End Lists.

(** ** The valuation function *)

Section Claims_valuation.

Open Scope float_scope.

(** C1: whenever the discount rate is less than or equal to the terminal
    growth rate, [calculate_intrinsic_price] returns [None] (the Undefined
    outcome): it returns normally, with no number and no exception, for
    both kinds of rate and for any module constants. *)
Theorem undefined_at_or_below_growth (G : Globals) (wacc : number) :
  (payload wacc <=? terminal_growth G) = true ->
  calculate_intrinsic_price G wacc = Ok None.
Proof.
  intros H. unfold calculate_intrinsic_price, py_le.
  unfold payload at 2. now rewrite H.
Qed.

(** C1, at the rates the specification names: the growth rate of the module
    is 0.03, and the rates 0.03 and 0.02 are both Undefined. *)
Lemma undefined_at_003_and_002 :
  terminal_growth module_globals = 0.03 /\
  calculate_intrinsic_price module_globals (PyFloat 0.03) = Ok None /\
  calculate_intrinsic_price module_globals (PyFloat 0.02) = Ok None /\
  calculate_intrinsic_price module_globals (NpFloat64 0.03) = Ok None /\
  calculate_intrinsic_price module_globals (NpFloat64 0.02) = Ok None.
Proof.
  split; [reflexivity|].
  split; [|split; [|split]];
    apply undefined_at_or_below_growth; reflexivity.
Defined.

(** C2: with the constants of the module (final-year cash flow
    5378414444.78, growth 0.03, forecast sum 33.36e9, net debt 61.35e9,
    1.8e9 shares) and the rate 0.0945, the call returns exactly 32.17. *)
Theorem reference_scenario :
  final_year_fcf module_globals = 5378414444.78 /\
  terminal_growth module_globals = 0.03 /\
  fcf_sum module_globals = 33360000000 /\
  net_debt module_globals = 61350000000%Z /\
  outstanding_shares module_globals = 1800000000%Z /\
  calculate_intrinsic_price module_globals (PyFloat 0.0945)
  = Ok (Some (PyFloat 32.17)).
Proof. repeat split; vm_compute; reflexivity. Qed.





(** C8: the result does not depend on [market_cap]: with any two values of
    it and the other constants unchanged, every call returns the same
    result. *)
Theorem market_cap_unused (G : Globals) (mc1 mc2 : Z) (wacc : number) :
  market_cap (with_market_cap mc1 G) = mc1 /\
  market_cap (with_market_cap mc2 G) = mc2 /\
  calculate_intrinsic_price (with_market_cap mc1 G) wacc
  = calculate_intrinsic_price (with_market_cap mc2 G) wacc.
Proof. repeat split. Qed.

(** C10: a rate above the growth rate can give a strictly negative price:
    at 0.25, and already at 0.228, the call returns a negative number, not
    [None] and not zero; at 0.227 the price is still positive. *)
Theorem negative_price_above_growth :
  (exists wacc p,
      (terminal_growth module_globals <? payload wacc) = true /\
      calculate_intrinsic_price module_globals wacc = Ok (Some p) /\
      (payload p <? 0) = true) /\
  calculate_intrinsic_price module_globals (PyFloat 0.25)
  = Ok (Some (PyFloat (-1.56))) /\
  calculate_intrinsic_price module_globals (PyFloat 0.228)
  = Ok (Some (PyFloat (-0.01))) /\
  calculate_intrinsic_price module_globals (PyFloat 0.227)
  = Ok (Some (PyFloat 0.07)).
Proof.
  split.
  - exists (PyFloat 0.25), (PyFloat (-1.56)). repeat split.
  - repeat split.
Qed.

End Claims_valuation.

(** ** The sensitivity sweep *)

Section Claims_curve.

Open Scope float_scope.

(** The swept rates and their prices, evaluated. *)
Lemma curve_checks :
  match wacc_values with
  | Ok ws =>
      Nat.eqb (length ws) 100 &&
      adjacent (price_falls module_globals) ws &&
      strictly_ascending ws &&
      follows_linear_rule (35 # 1000) (12 # 100) ws
  | Raise _ => false
  end = true.
Proof. vm_compute. reflexivity. Qed.

(** The first and the last swept rate. *)
Lemma curve_endpoints :
  match wacc_values with
  | Ok ws => nth_error ws 0 = Some 0.035 /\ nth_error ws 99 = Some 0.12
  | Raise _ => False
  end.
Proof. vm_compute. split; reflexivity. Qed.

Lemma wacc_values_ok :
  exists ws,
    wacc_values = Ok ws /\ length ws = 100%nat /\
    adjacent (price_falls module_globals) ws = true /\
    strictly_ascending ws = true /\
    follows_linear_rule (35 # 1000) (12 # 100) ws = true.
Proof.
  pose proof curve_checks as H.
  destruct wacc_values as [ws|e]; [|discriminate].
  exists ws.
  repeat (apply andb_prop in H as [H ?]).
  apply Nat.eqb_eq in H. now repeat split.
Qed.

(** On the swept rates the two rounding rules return the same price:
    [round] on a float64 scalar and [round] on a Python float agree there. *)
Lemma curve_rounding_agrees :
  match wacc_values with
  | Ok ws =>
      forallb
        (fun w =>
           Leibniz.eqb (Np.round2 (gordon_growth_price module_globals w))
                       (Py.round2 (gordon_growth_price module_globals w)))
        ws
  | Raise _ => false
  end = true.
Proof. vm_compute. reflexivity. Qed.

Lemma share_prices_ok (ws : list float) :
  wacc_values = Ok ws ->
  share_prices = Ok (map (float64_result module_globals) ws).
Proof.
  intros H. unfold share_prices. rewrite H. unfold bind.
  now rewrite sweep_total.
Qed.

(** Lines 87-88 are the curve for the range 3.5 to 12 with 100 samples. *)
Lemma generate_curve_of_program (ws : list float) (ps : list (option number)) :
  wacc_values = Ok ws -> share_prices = Ok ps ->
  generate_curve module_globals 3.5 12 100 = Ok (ws, ps).
Proof.
  unfold share_prices, generate_curve, wacc_values.
  intros ->. unfold bind. now intros ->.
Qed.

(** C4: with the constants of the module, whose final-year cash flow is
    positive, the price strictly decreases along the curve: for every two
    consecutive samples of the 100 rates swept over [0.035, 0.12], the
    price at the lower rate is strictly greater than the price at the
    higher rate. *)
Theorem price_strictly_decreasing_on_curve :
  (0 <? final_year_fcf module_globals) = true /\
  exists ws ps,
    wacc_values = Ok ws /\ share_prices = Ok ps /\
    length ws = 100%nat /\ length ps = 100%nat /\
    forall i, (i < 99)%nat ->
      exists a b p q,
        nth_error ws i = Some a /\ nth_error ws (S i) = Some b /\
        (a <? b) = true /\
        nth_error ps i = Some (Some p) /\
        nth_error ps (S i) = Some (Some q) /\
        calculate_intrinsic_price module_globals (NpFloat64 a) = Ok (Some p) /\
        calculate_intrinsic_price module_globals (NpFloat64 b) = Ok (Some q) /\
        (payload q <? payload p) = true.
Proof.
  split; [reflexivity|].
  destruct wacc_values_ok as (ws & Hws & Hlen & Hfall & _).
  exists ws, (map (float64_result module_globals) ws).
  split; [assumption|]. split; [now apply share_prices_ok|].
  split; [assumption|]. split; [now rewrite length_map|].
  intros i Hi.
  destruct (adjacent_nth _ _ Hfall i) as (a & b & Ha & Hb & Hab); [lia|].
  unfold price_falls in Hab. apply andb_prop in Hab as [Hlt Hpq].
  destruct (float64_result module_globals a) as [p|] eqn:Hp; [|discriminate].
  destruct (float64_result module_globals b) as [q|] eqn:Hq; [|discriminate].
  exists a, b, p, q.
  rewrite !nth_error_map, Ha, Hb, !calculate_float64. simpl.
  rewrite Hp, Hq. now repeat split.
Qed.

(** C4 at the first two samples: 599.98 at the rate 0.035 is above the
    price at the next rate. *)
Lemma price_decreasing_at_first_pair :
  exists a b p q,
    calculate_intrinsic_price module_globals (NpFloat64 a) = Ok (Some p) /\
    calculate_intrinsic_price module_globals (NpFloat64 b) = Ok (Some q) /\
    (a <? b) = true /\ (payload q <? payload p) = true.
Proof.
  destruct price_strictly_decreasing_on_curve
    as (_ & ws & ps & _ & _ & _ & _ & H).
  destruct (H 0%nat ltac:(repeat constructor))
    as (a & b & p & q & _ & _ & Hab & _ & _ & Hp & Hq & Hqp).
  exists a, b, p, q. now repeat split.
Defined.

(** C5: the sweep has exactly 100 rates; rate [i] is
    [0.035 + i * (0.12 - 0.035) / 99] up to [rate_tolerance]; the rates are
    strictly ascending; the first is 0.035 and the last is 0.12. *)
Theorem curve_rates_complete :
  exists ws,
    wacc_values = Ok ws /\ length ws = 100%nat /\
    (forall i, (i < 100)%nat ->
       exists w, nth_error ws i = Some w /\
                 within rate_tolerance w
                   (linear_rule (35 # 1000) (12 # 100) 100 i) = true) /\
    (forall i, (i < 99)%nat ->
       exists a b, nth_error ws i = Some a /\ nth_error ws (S i) = Some b /\
                   (a <? b) = true) /\
    nth_error ws 0 = Some 0.035 /\ nth_error ws 99 = Some 0.12.
Proof.
  pose proof curve_checks as H. pose proof curve_endpoints as He.
  destruct wacc_values as [ws|e]; [|discriminate].
  apply andb_prop in H as [H Hrule]. apply andb_prop in H as [H Hasc].
  apply andb_prop in H as [Hlen _]. apply Nat.eqb_eq in Hlen.
  exists ws. split; [reflexivity|]. split; [assumption|].
  split; [|split; [|exact He]].
  - intros i Hi. exists (nth i ws nan). split.
    + apply nth_error_nth'. lia.
    + unfold follows_linear_rule in Hrule.
      rewrite forallb_forall in Hrule.
      specialize (Hrule i). rewrite Hlen in Hrule. apply Hrule.
      apply in_seq. lia.
  - intros i Hi. apply adjacent_nth; [assumption|lia].
Qed.

(** C5 at sample 50 of the sweep. *)
Lemma curve_rate_50 :
  exists ws w,
    wacc_values = Ok ws /\ nth_error ws 50 = Some w /\
    within rate_tolerance w (linear_rule (35 # 1000) (12 # 100) 100 50) = true.
Proof.
  destruct curve_rates_complete as (ws & Hws & _ & Hrule & _).
  destruct (Hrule 50%nat ltac:(repeat constructor)) as (w & Hw & Hq).
  exists ws, w. now repeat split.
Defined.

(** C6: the sweep calls the valuation once per rate, in order, and returns
    one result per rate: an Undefined result does not end it, and the
    results stand at the positions of their rates.  The second component
    of [sweep] is the sequence of rates the valuation was called with. *)
Theorem sweep_is_complete :
  (forall ws : list float,
     exists ps,
       sweep module_globals ws = (Ok ps, ws) /\
       length ps = length ws /\
       forall i w, nth_error ws i = Some w ->
         exists r,
           calculate_intrinsic_price module_globals (NpFloat64 w) = Ok r /\
           nth_error ps i = Some r) /\
  (forall start stop num, (0 <= num)%Z ->
     exists ws ps,
       generate_curve module_globals start stop num = Ok (ws, ps) /\
       length ws = Z.to_nat num /\ length ps = Z.to_nat num /\
       sweep module_globals ws = (Ok ps, ws)).
Proof.
  assert (Hsweep : forall ws : list float,
            exists ps,
              sweep module_globals ws = (Ok ps, ws) /\
              length ps = length ws /\
              forall i w, nth_error ws i = Some w ->
                exists r,
                  calculate_intrinsic_price module_globals (NpFloat64 w)
                  = Ok r /\
                  nth_error ps i = Some r).
  { intros ws. exists (map (float64_result module_globals) ws).
    split; [apply sweep_total|]. split; [apply length_map|].
    intros i w Hw. exists (float64_result module_globals w).
    split; [apply calculate_float64|].
    now rewrite nth_error_map, Hw. }
  split; [exact Hsweep|].
  intros start stop num Hnum.
  destruct (rate_samples_length start stop num Hnum) as (ws & Hws & Hlen).
  destruct (Hsweep ws) as (ps & Hps & Hl & _).
  exists ws, ps. unfold generate_curve. rewrite Hws. unfold bind at 1.
  rewrite Hps. simpl. repeat split; congruence.
Qed.

(** C6 on three rates with an Undefined one in the middle. *)
Lemma sweep_past_undefined :
  exists p q,
    sweep module_globals [0.05; 0.02; 0.1]
    = (Ok [Some p; None; Some q], [0.05; 0.02; 0.1]).
Proof.
  destruct (proj1 sweep_is_complete [0.05; 0.02; 0.1])
    as (ps & Hs & _ & _).
  rewrite Hs. vm_compute in Hs.
  injection Hs as <-.
  eexists _, _. reflexivity.
Defined.






End Claims_curve.
